(** * The interrupt descriptor table of xinOS: [src/kernel/idt/idt.c]

    A shallow embedding of [register_isr], [register_exceptions] and
    [init_idt], and the properties of the table they build.

    Target: 32-bit x86, little endian.  A [void *] is a 32-bit value, the
    two structures are packed, and the table [idt] is the byte
    representation of [struct idt_entry idt[256]]. *)

From Stdlib Require Import ZArith Lia.
From Stdlib Require Import Strings.Byte.
From stdpp Require Import base option list.

Local Open Scope Z_scope.

(** ** Bytes and fixed-width integers *)

Module U8.

(** The value of a [uint8_t]. *)
Definition to_Z (b : byte) : Z := Z.of_N (Byte.to_N b).

(** Conversion of an integer to [uint8_t]: reduction modulo 2^8. *)
Definition of_Z (z : Z) : byte :=
  default x00 (Byte.of_N (Z.to_N (z mod 256))).

End U8.

(** ** Byte-addressed memory

    An object is the list of its bytes.  A store outside the object is
    undefined behaviour in C, modelled as [None]. *)

Definition store8 (p : nat) (b : byte) (m : list byte) : option (list byte) :=
  if decide (p < length m)%nat then Some (<[p:=b]> m) else None.

Definition load8 (p : nat) (m : list byte) : option byte := m !! p.

(** A 16-bit store: conversion to [uint16_t], low byte first. *)
Definition store16 (p : nat) (v : Z) (m : list byte) : option (list byte) :=
  m ← store8 p (U8.of_Z (v mod 2 ^ 16)) m;
  store8 (p + 1) (U8.of_Z (Z.shiftr (v mod 2 ^ 16) 8)) m.

Definition load16 (p : nat) (m : list byte) : option Z :=
  lo ← load8 p m;
  hi ← load8 (p + 1) m;
  Some (Z.lor (U8.to_Z lo) (Z.shiftl (U8.to_Z hi) 8)).

(** Modelled from the spec: [memset] of [kernel/utils/mem.c], which is not
    part of the sources at hand; its contract is "given a memory region and
    a byte length, set every byte" of the region to the given value.  The
    region is the [n] bytes from offset [p] of the object. *)
Definition memset (p : nat) (c : byte) (n : nat) (m : list byte)
  : option (list byte) :=
  if decide (p + n <= length m)%nat
  then Some (take p m ++ replicate n c ++ drop (p + n) m)
  else None.

(** ** The data model of [idt.c] *)

(** [struct idt_entry], packed: the offset of a field is the sum of the
    sizes of the fields before it. *)
Definition offsetof_offset_1 : nat := 0.
Definition offsetof_selector : nat := offsetof_offset_1 + 2.
Definition offsetof_zero : nat := offsetof_selector + 2.
Definition offsetof_type : nat := offsetof_zero + 1.
Definition offsetof_offset_2 : nat := offsetof_type + 1.
Definition sizeof_idt_entry : nat := offsetof_offset_2 + 2.

(** The number of elements of [idt]. *)
Definition idt_entries : nat := 256.

(** [sizeof idt]. *)
Definition sizeof_idt : nat := idt_entries * sizeof_idt_entry.

(** The fields of one [struct idt_entry], read from memory. *)
Record idt_entry := IdtEntry {
  offset_1 : Z;
  selector : Z;
  zero : Z;
  type : Z;
  offset_2 : Z
}.

(** [struct idt_ptr]. *)
Record idt_ptr := IdtPtr {
  idtp_size : Z;
  idtp_addr : Z
}.

(** The instructions and calls whose order matters, logged as they are
    executed. *)
Inductive event :=
  | EvMemset
  | EvLidt (p : idt_ptr)
  | EvRegister (isr : Z) (index : byte)
  | EvSti.

(** The state: the two globals [idt] and [idtp], the processor's table
    register and interrupt flag, and the log. *)
Record machine := Machine {
  idt : list byte;
  idtp : idt_ptr;
  idtr : option idt_ptr;
  interrupt_flag : bool;
  trace : list event
}.

Definition set_idt (m : list byte) (st : machine) : machine :=
  Machine m (idtp st) (idtr st) (interrupt_flag st) (trace st).

Definition set_idtp (p : idt_ptr) (st : machine) : machine :=
  Machine (idt st) p (idtr st) (interrupt_flag st) (trace st).

Definition log (e : event) (st : machine) : machine :=
  Machine (idt st) (idtp st) (idtr st) (interrupt_flag st) (trace st ++ [e]).

(** [idt[index]] as a structure. *)
Definition load_entry (m : list byte) (index : nat) : option idt_entry :=
  let e := (index * sizeof_idt_entry)%nat in
  o1 ← load16 (e + offsetof_offset_1) m;
  s ← load16 (e + offsetof_selector) m;
  z ← load8 (e + offsetof_zero) m;
  t ← load8 (e + offsetof_type) m;
  o2 ← load16 (e + offsetof_offset_2) m;
  Some (IdtEntry o1 s (U8.to_Z z) (U8.to_Z t) o2).

(** [idt[index]] as its bytes. *)
Definition entry_bytes (m : list byte) (index : nat) : list byte :=
  take sizeof_idt_entry (drop (index * sizeof_idt_entry) m).

(** The handler address a gate holds: [offset_2 << 16 | offset_1]. *)
Definition entry_address (e : idt_entry) : Z :=
  Z.lor (Z.shiftl (offset_2 e) 16) (offset_1 e).

(** The presence flag: bit 7 of the type byte. *)
Definition present (e : idt_entry) : bool := Z.testbit (type e) 7.

Definition zero_entry : idt_entry := IdtEntry 0 0 0 0 0.

(** ** Concrete states and values, for the examples *)

(** A table full of stale bytes, before [init_idt]. *)
Definition stale_state : machine :=
  Machine (replicate sizeof_idt xff) (IdtPtr 0xFFFF 0xFFFFFFFF) None false [].

(** The values of the end-to-end scenario. *)
Definition example_selector : Z := 0x08.
Definition example_location : Z := 0x00105000.
Definition example_int08 : Z := 0x00100020.
Definition example_int32 : Z := 0x00100040.
Definition example_int33 : Z := 0x00100060.

Section Idt.

(** [CODE_SEGMENT] of [kernel/definitions.h]. *)
Variable CODE_SEGMENT : Z.

(** The address of the global [idt]. *)
Variable idt_location : Z.

(** The entry points [int08] (double fault), [int32] (clock) and [int33]
    (keyboard), defined by the included handler files. *)
Variables int08 int32 int33 : Z.

(** [isr_byte_array[k]]: byte [k] of the object representation of the
    pointer [isr]. *)
Definition isr_byte_array (isr : Z) (k : Z) : byte :=
  U8.of_Z (Z.shiftr isr (8 * k)).

Definition register_isr (isr : Z) (index : byte) (st : machine)
  : option machine :=
  let current_entry := (Byte.to_nat index * sizeof_idt_entry)%nat in
  m ← store8 (current_entry + offsetof_offset_1) (isr_byte_array isr 0) (idt st);
  m ← store8 (current_entry + offsetof_offset_1 + 1) (isr_byte_array isr 1) m;
  m ← store8 (current_entry + offsetof_offset_2) (isr_byte_array isr 2) m;
  m ← store8 (current_entry + offsetof_offset_2 + 1) (isr_byte_array isr 3) m;
  m ← store8 (current_entry + offsetof_zero) x00 m;
  m ← store16 (current_entry + offsetof_selector) CODE_SEGMENT m;
  m ← store8 (current_entry + offsetof_type) x8e m;
  Some (log (EvRegister isr index) (set_idt m st)).

Definition register_exceptions (st : machine) : option machine :=
  register_isr int08 x08 st.

(** The statements of [init_idt], in source order. *)

(** [idtp.size = (sizeof (struct idt_entry) * 256) - 1], converted to
    [uint16_t]. *)
Definition assign_idtp_size (st : machine) : option machine :=
  Some (set_idtp
          (IdtPtr ((Z.of_nat sizeof_idt_entry * 256 - 1) mod 2 ^ 16)
                  (idtp_addr (idtp st))) st).

(** [idtp.addr = (uint32_t) idt]. *)
Definition assign_idtp_addr (st : machine) : option machine :=
  Some (set_idtp (IdtPtr (idtp_size (idtp st)) (idt_location mod 2 ^ 32)) st).

(** [memset(&idt, 0, 256 * sizeof(struct idt_entry))]. *)
Definition memset_idt (st : machine) : option machine :=
  m ← memset 0 x00 (256 * sizeof_idt_entry) (idt st);
  Some (log EvMemset (set_idt m st)).

(** [lidt idtp]: the processor copies the record into its table
    register. *)
Definition lidt (st : machine) : option machine :=
  Some (log (EvLidt (idtp st))
          (Machine (idt st) (idtp st) (Some (idtp st)) (interrupt_flag st)
             (trace st))).

(** [sti]. *)
Definition sti (st : machine) : option machine :=
  Some (log EvSti
          (Machine (idt st) (idtp st) (idtr st) true (trace st))).

Definition init_idt_body : list (machine -> option machine) :=
  [ assign_idtp_size;
    assign_idtp_addr;
    memset_idt;
    lidt;
    register_exceptions;
    register_isr int32 x20;
    register_isr int33 x21;
    sti ].

(** Sequential execution; it stops at the first undefined step. *)
Definition run (body : list (machine -> option machine)) (st : machine)
  : option machine :=
  foldl (fun o f => o ≫= f) (Some st) body.

Definition init_idt (st : machine) : option machine := run init_idt_body st.

(** The state of [init_idt] after its first [k] statements. *)
Definition init_idt_at (k : nat) (st : machine) : option machine :=
  run (take k init_idt_body) st.

(** The functions of the file, as a caller sees them. *)
Inductive call :=
  | CallRegisterIsr (isr : Z) (index : byte)
  | CallRegisterExceptions
  | CallInitIdt.

Definition exec_call (c : call) : machine -> option machine :=
  match c with
  | CallRegisterIsr isr index => register_isr isr index
  | CallRegisterExceptions => register_exceptions
  | CallInitIdt => init_idt
  end.

Definition exec_calls (cs : list call) (st : machine) : option machine :=
  run (exec_call <$> cs) st.

(** *** Predicates of the specification *)

(** [idt] has its declared size, [256 * sizeof (struct idt_entry)]. *)
Definition well_formed (st : machine) : Prop :=
  length (idt st) = sizeof_idt.

(** A slot all of whose bytes are zero. *)
Definition absent_slot (m : list byte) (index : nat) : Prop :=
  entry_bytes m index = replicate sizeof_idt_entry x00.

(** The packed bit fields of the type byte. *)
Definition privilege_level (e : idt_entry) : Z :=
  Z.land (Z.shiftr (type e) 5) 3.
Definition storage_segment (e : idt_entry) : bool := Z.testbit (type e) 4.
Definition gate_type (e : idt_entry) : Z := Z.land (type e) 0xF.

(** The three fields [register_isr] sets to fixed values. *)
Definition fixed_fields (e : idt_entry) : Prop :=
  type e = 0x8E /\ selector e = CODE_SEGMENT /\ zero e = 0.

Definition slot_invariant (m : list byte) (index : nat) : Prop :=
  absent_slot m index \/
  exists e, load_entry m index = Some e /\ fixed_fields e.

Definition table_invariant (st : machine) : Prop :=
  well_formed st /\
  forall index : byte, slot_invariant (idt st) (Byte.to_nat index).

(** The events logged between two states. *)
Definition events_since (st st' : machine) : list event :=
  drop (length (trace st)) (trace st').

Definition is_memset (e : event) : bool :=
  match e with EvMemset => true | _ => false end.
Definition is_lidt (e : event) : bool :=
  match e with EvLidt _ => true | _ => false end.
Definition is_register (e : event) : bool :=
  match e with EvRegister _ _ => true | _ => false end.
Definition is_sti (e : event) : bool :=
  match e with EvSti => true | _ => false end.

(** Every [p] event of the log comes before every [q] event. *)
Definition all_before (p q : event -> bool) (tr : list event) : Prop :=
  forall i j ei ej,
    tr !! i = Some ei -> tr !! j = Some ej ->
    p ei = true -> q ej = true -> (i < j)%nat.

(** The same, computed: from the first [q] event on, no [p] event. *)
Fixpoint all_beforeb (p q : event -> bool) (tr : list event) : bool :=
  match tr with
  | [] => true
  | e :: tr' =>
      if q e then forallb (fun x => negb (p x)) tr
      else all_beforeb p q tr'
  end.

(** The record [init_idt] stores in [idtp]. *)
Definition init_idtp : idt_ptr :=
  IdtPtr ((Z.of_nat sizeof_idt_entry * 256 - 1) mod 2 ^ 16)
         (idt_location mod 2 ^ 32).

(** The events of one run of [init_idt]. *)
Definition init_idt_events : list event :=
  [ EvMemset;
    EvLidt init_idtp;
    EvRegister int08 x08;
    EvRegister int32 x20;
    EvRegister int33 x21;
    EvSti ].

(** The eight bytes [register_isr] leaves in a slot, in memory order. *)
Definition entry_image (isr : Z) : list byte :=
  [ isr_byte_array isr 0;
    isr_byte_array isr 1;
    U8.of_Z (CODE_SEGMENT mod 2 ^ 16);
    U8.of_Z (Z.shiftr (CODE_SEGMENT mod 2 ^ 16) 8);
    x00;
    x8e;
    isr_byte_array isr 2;
    isr_byte_array isr 3 ].

(** The table after [register_isr]: the image laid over the slot. *)
Definition write_entry (isr : Z) (index : byte) (m : list byte) : list byte :=
  list_inserts (Byte.to_nat index * sizeof_idt_entry) (entry_image isr) m.

(** The table [init_idt] builds. *)
Definition init_idt_table : list byte :=
  write_entry int33 x21
    (write_entry int32 x20
       (write_entry int08 x08 (replicate sizeof_idt x00))).

(** The state of [init_idt] after its first [k] statements, in closed
    form. *)
Definition init_idt_point (k : nat) (st : machine) : machine :=
  let cleared := replicate sizeof_idt x00 in
  let events n := trace st ++ take n init_idt_events in
  match k with
  | 0%nat => st
  | 1%nat =>
      set_idtp (IdtPtr (idtp_size init_idtp) (idtp_addr (idtp st))) st
  | 2%nat => set_idtp init_idtp st
  | 3%nat =>
      Machine cleared init_idtp (idtr st) (interrupt_flag st) (events 1%nat)
  | 4%nat =>
      Machine cleared init_idtp (Some init_idtp) (interrupt_flag st)
        (events 2%nat)
  | 5%nat =>
      Machine (write_entry int08 x08 cleared) init_idtp (Some init_idtp)
        (interrupt_flag st) (events 3%nat)
  | 6%nat =>
      Machine (write_entry int32 x20 (write_entry int08 x08 cleared))
        init_idtp (Some init_idtp) (interrupt_flag st) (events 4%nat)
  | 7%nat =>
      Machine init_idt_table init_idtp (Some init_idtp) (interrupt_flag st)
        (events 5%nat)
  | _ =>
      Machine init_idt_table init_idtp (Some init_idtp) true (events 6%nat)
  end.

(** The number of events satisfying [p]. *)
Definition count_events (p : event -> bool) (tr : list event) : nat :=
  length (List.filter p tr).

(** The calls of [init_idt] in a sequence of calls. *)
Definition is_init_call (c : call) : bool :=
  match c with CallInitIdt => true | _ => false end.

(** ** Lemmas on bytes and memory *)

Lemma U8_to_Z_range b : 0 <= U8.to_Z b < 256.
Proof.
  unfold U8.to_Z. pose proof (Byte.to_N_bounded b). lia.
Qed.

Lemma U8_of_N_small n : (n <= 255)%N -> exists b, Byte.of_N n = Some b.
Proof.
  intros Hn. destruct (Byte.of_N n) as [b|] eqn:E; [by exists b|].
  apply Byte.of_N_None_iff in E. lia.
Qed.

Lemma U8_to_of_Z z : U8.to_Z (U8.of_Z z) = z mod 256.
Proof.
  unfold U8.to_Z, U8.of_Z.
  assert (Hr : 0 <= z mod 256 < 256) by (apply Z.mod_pos_bound; lia).
  destruct (U8_of_N_small (Z.to_N (z mod 256))) as [b Hb]; [lia|].
  rewrite Hb. simpl. apply Byte.to_of_N in Hb. rewrite Hb. lia.
Qed.

Lemma U8_to_nat_lt b : (Byte.to_nat b < 256)%nat.
Proof.
  rewrite Byte.to_nat_via_N. pose proof (Byte.to_N_bounded b). lia.
Qed.

Lemma U8_to_nat_inj b c : Byte.to_nat b = Byte.to_nat c -> b = c.
Proof.
  intros H. pose proof (Byte.of_to_nat b) as Hb.
  pose proof (Byte.of_to_nat c) as Hc. congruence.
Qed.

Lemma store8_Some p b m :
  (p < length m)%nat -> store8 p b m = Some (<[p:=b]> m).
Proof. intros H. unfold store8. by rewrite decide_True. Qed.

Lemma store8_None p b m : (length m <= p)%nat -> store8 p b m = None.
Proof. intros H. unfold store8. rewrite decide_False; [done | lia]. Qed.

Lemma store16_Some p v m :
  (p + 1 < length m)%nat ->
  store16 p v m =
    Some (<[(p + 1)%nat := U8.of_Z (Z.shiftr (v mod 2 ^ 16) 8)]>
            (<[p := U8.of_Z (v mod 2 ^ 16)]> m)).
Proof.
  intros H. unfold store16. rewrite store8_Some by lia. simpl.
  rewrite store8_Some; [done | rewrite length_insert; lia].
Qed.

Lemma memset_all c m :
  memset 0 c (length m) m = Some (replicate (length m) c).
Proof.
  unfold memset. rewrite decide_True by (simpl; lia).
  simpl. rewrite drop_all, app_nil_r. done.
Qed.

Lemma entry_bytes_lookup m index k :
  entry_bytes m index !! k =
    if decide (k < sizeof_idt_entry)%nat
    then m !! (index * sizeof_idt_entry + k)%nat else None.
Proof.
  unfold entry_bytes. rewrite lookup_take. case_decide; [|done].
  by rewrite lookup_drop.
Qed.

Lemma entry_bytes_ext m m' index :
  (forall k, (k < sizeof_idt_entry)%nat ->
     m' !! (index * sizeof_idt_entry + k)%nat =
     m !! (index * sizeof_idt_entry + k)%nat) ->
  entry_bytes m' index = entry_bytes m index.
Proof.
  intros H. apply list_eq. intros k. rewrite !entry_bytes_lookup.
  case_decide; [by apply H | done].
Qed.

(** ** [register_isr] *)

Lemma sizeof_idt_entry_eq : sizeof_idt_entry = 8%nat.
Proof. reflexivity. Qed.

Lemma sizeof_idt_eq : sizeof_idt = 2048%nat.
Proof. reflexivity. Qed.

(** The slot of every index lies inside the table. *)
Lemma slot_in_bounds (index : byte) :
  (Byte.to_nat index * sizeof_idt_entry + sizeof_idt_entry <= sizeof_idt)%nat.
Proof.
  pose proof (U8_to_nat_lt index).
  rewrite sizeof_idt_eq, sizeof_idt_entry_eq. lia.
Qed.

(** What one call does to the state. *)
Lemma register_isr_Some isr index st :
  well_formed st ->
  exists st',
    register_isr isr index st = Some st' /\
    idtp st' = idtp st /\ idtr st' = idtr st /\
    interrupt_flag st' = interrupt_flag st /\
    trace st' = trace st ++ [EvRegister isr index] /\
    length (idt st') = length (idt st) /\
    forall p : nat,
      idt st' !! p =
        if decide (Byte.to_nat index * 8 <= p < Byte.to_nat index * 8 + 8)%nat
        then entry_image isr !! (p - Byte.to_nat index * 8)%nat
        else idt st !! p.
Proof.
  unfold well_formed. rewrite sizeof_idt_eq. intros Hlen.
  pose proof (U8_to_nat_lt index) as Hi.
  unfold register_isr.
  unfold offsetof_offset_2, offsetof_type, offsetof_zero, offsetof_selector,
    offsetof_offset_1.
  rewrite sizeof_idt_entry_eq.
  set (i := Byte.to_nat index) in *.
  rewrite store8_Some by lia. cbn [mbind option_bind].
  rewrite store8_Some by (rewrite !length_insert; lia). cbn [mbind option_bind].
  rewrite store8_Some by (rewrite !length_insert; lia). cbn [mbind option_bind].
  rewrite store8_Some by (rewrite !length_insert; lia). cbn [mbind option_bind].
  rewrite store8_Some by (rewrite !length_insert; lia). cbn [mbind option_bind].
  rewrite store16_Some by (rewrite !length_insert; lia). cbn [mbind option_bind].
  rewrite store8_Some by (rewrite !length_insert; lia). cbn [mbind option_bind].
  eexists. split; [reflexivity|].
  cbn [log set_idt idt idtp idtr interrupt_flag trace].
  repeat split.
  - by rewrite !length_insert.
  - intros p.
    destruct (decide (i * 8 <= p < i * 8 + 8)%nat) as [Hin|Hin];
      rewrite !list_lookup_insert, !length_insert.
    + assert (exists k, (k < 8)%nat /\ p = (i * 8 + k)%nat) as (k & Hk & ->)
        by (exists (p - i * 8)%nat; lia).
      replace (i * 8 + k - i * 8)%nat with k by lia.
      do 8 (destruct k as [|k]; [repeat case_decide; try lia; reflexivity|]).
      lia.
    + repeat case_decide; try lia; reflexivity.
Qed.

(** ** Bit arithmetic of the split address *)

(** Two consecutive bytes of [a], the lower first, are its low 16 bits. *)
Lemma lor_two_bytes a :
  Z.lor (a mod 256) (Z.shiftl (Z.shiftr a 8 mod 256) 8) = a mod 2 ^ 16.
Proof.
  change 256 with (2 ^ 8). apply Z.bits_inj'. intros n Hn.
  rewrite Z.lor_spec, Z.shiftl_spec by lia.
  rewrite (Z.testbit_mod_pow2 a 16 n) by lia.
  rewrite (Z.testbit_mod_pow2 a 8 n) by lia.
  destruct (Z.ltb_spec n 8) as [H8|H8].
  - rewrite (Z.testbit_neg_r _ (n - 8)) by lia.
    replace (n <? 16) with true by (symmetry; apply Z.ltb_lt; lia).
    by rewrite orb_false_r.
  - rewrite (Z.testbit_mod_pow2 _ 8 (n - 8)) by lia.
    rewrite Z.shiftr_spec by lia. replace (n - 8 + 8) with n by lia.
    simpl. f_equal.
    destruct (Z.ltb_spec (n - 8) 8), (Z.ltb_spec n 16); try lia; reflexivity.
Qed.

(** The two 16-bit halves of [a], the higher shifted back, are its low
    32 bits. *)
Lemma lor_two_halves a :
  Z.lor (Z.shiftl (Z.shiftr a 16 mod 2 ^ 16) 16) (a mod 2 ^ 16) = a mod 2 ^ 32.
Proof.
  apply Z.bits_inj'. intros n Hn.
  rewrite Z.lor_spec, Z.shiftl_spec by lia.
  rewrite (Z.testbit_mod_pow2 a 16 n) by lia.
  rewrite (Z.testbit_mod_pow2 a 32 n) by lia.
  destruct (Z.ltb_spec n 16) as [H16|H16].
  - rewrite (Z.testbit_neg_r _ (n - 16)) by lia.
    replace (n <? 32) with true by (symmetry; apply Z.ltb_lt; lia).
    reflexivity.
  - rewrite (Z.testbit_mod_pow2 _ 16 (n - 16)) by lia.
    rewrite Z.shiftr_spec by lia. replace (n - 16 + 16) with n by lia.
    simpl. rewrite orb_false_r. f_equal.
    destruct (Z.ltb_spec (n - 16) 16), (Z.ltb_spec n 32); try lia; reflexivity.
Qed.

(** ** Reading a slot *)

(** A slot read as a structure depends on its eight bytes only. *)
Lemma load_entry_entry_bytes m index :
  load_entry m index = load_entry (entry_bytes m index) 0.
Proof.
  unfold load_entry, load16, load8.
  unfold offsetof_offset_2, offsetof_type, offsetof_zero, offsetof_selector,
    offsetof_offset_1.
  rewrite !entry_bytes_lookup, sizeof_idt_entry_eq.
  repeat (rewrite decide_True by lia).
  change (0 * 8)%nat with 0%nat.
  rewrite <- !Nat.add_assoc. cbn [Nat.add]. reflexivity.
Qed.

(** The structure held by the bytes [register_isr] writes. *)
Lemma load_entry_image isr :
  load_entry (entry_image isr) 0 =
    Some (IdtEntry (isr mod 2 ^ 16) (CODE_SEGMENT mod 2 ^ 16) 0 0x8E
            (Z.shiftr isr 16 mod 2 ^ 16)).
Proof.
  unfold load_entry, load16, load8, entry_image, isr_byte_array.
  cbn [lookup list_lookup mbind option_bind Nat.add Nat.mul
         offsetof_offset_1 offsetof_selector offsetof_zero offsetof_type
         offsetof_offset_2 sizeof_idt_entry].
  rewrite !U8_to_of_Z.
  change (8 * 0) with 0. change (8 * 1) with 8.
  change (8 * 2) with 16. change (8 * 3) with (16 + 8).
  rewrite <- (Z.shiftr_shiftr isr 16 8) by lia.
  rewrite Z.shiftr_0_r, !lor_two_bytes.
  rewrite Z.mod_mod by lia.
  reflexivity.
Qed.

(** ** Closed forms of the statements *)

Lemma write_entry_length isr index m :
  length (write_entry isr index m) = length m.
Proof. apply length_inserts. Qed.

Lemma write_entry_lookup isr index m p :
  (length m = sizeof_idt)%nat ->
  write_entry isr index m !! p =
    if decide (Byte.to_nat index * 8 <= p < Byte.to_nat index * 8 + 8)%nat
    then entry_image isr !! (p - Byte.to_nat index * 8)%nat
    else m !! p.
Proof.
  intros Hlen. pose proof (slot_in_bounds index) as Hb.
  rewrite sizeof_idt_entry_eq in Hb. unfold write_entry.
  rewrite sizeof_idt_entry_eq. case_decide as Hin.
  - apply list_lookup_inserts; simpl; lia.
  - destruct (decide (p < Byte.to_nat index * 8)%nat).
    + by apply list_lookup_inserts_lt.
    + apply list_lookup_inserts_ge. simpl. lia.
Qed.

Lemma register_isr_closed isr index st :
  well_formed st ->
  register_isr isr index st =
    Some (log (EvRegister isr index)
            (set_idt (write_entry isr index (idt st)) st)).
Proof.
  intros Hwf.
  destruct (register_isr_Some isr index st Hwf)
    as (st' & -> & Hp & Hr & Hf & Ht & Hl & Hlk).
  f_equal. destruct st' as [m' p' r' f' t']. simpl in *. subst.
  unfold log, set_idt. simpl. f_equal.
  apply list_eq. intros p. rewrite Hlk, write_entry_lookup; done.
Qed.

Lemma register_isr_well_formed isr index st :
  well_formed st ->
  well_formed (log (EvRegister isr index)
                 (set_idt (write_entry isr index (idt st)) st)).
Proof.
  unfold well_formed. simpl. by rewrite write_entry_length.
Qed.

Lemma memset_idt_closed st :
  well_formed st ->
  memset_idt st =
    Some (log EvMemset (set_idt (replicate sizeof_idt x00) st)).
Proof.
  unfold well_formed, memset_idt. intros Hlen.
  change (256 * sizeof_idt_entry)%nat with sizeof_idt.
  rewrite <- Hlen at 1. rewrite memset_all, Hlen. reflexivity.
Qed.

(** ** Sequences of statements *)

Lemma run_None body : foldl (fun o f => o ≫= f) (@None machine) body = None.
Proof. induction body as [|f body IH]; simpl; auto. Qed.

Lemma run_cons f body st : run (f :: body) st = f st ≫= run body.
Proof.
  unfold run. simpl. destruct (f st) as [s|]; simpl; [done | apply run_None].
Qed.

Lemma run_app body1 body2 st :
  run (body1 ++ body2) st = run body1 st ≫= run body2.
Proof.
  revert st. induction body1 as [|f body1 IH]; intros st; [done|].
  simpl. rewrite !run_cons. destruct (f st) as [s|]; simpl; [apply IH | done].
Qed.

(** A property every statement keeps, and under which every statement is
    defined, holds after the sequence, which is then defined. *)
Lemma run_invariant (P : machine -> Prop) body st :
  Forall (fun f => forall s, P s -> exists s', f s = Some s' /\ P s') body ->
  P st ->
  exists st', run body st = Some st' /\ P st'.
Proof.
  intros Hbody. revert st.
  induction Hbody as [|f body Hf _ IH]; intros st HP.
  - exists st. done.
  - destruct (Hf st HP) as (s & Hs & HPs).
    rewrite run_cons, Hs. simpl. by apply IH.
Qed.

(** ** Slots of a written table *)

Lemma entry_bytes_write_same isr index m :
  length m = sizeof_idt ->
  entry_bytes (write_entry isr index m) (Byte.to_nat index) = entry_image isr.
Proof.
  intros Hlen. apply list_eq. intros k.
  rewrite entry_bytes_lookup, sizeof_idt_entry_eq. case_decide as Hk.
  - rewrite write_entry_lookup by done. rewrite decide_True by lia.
    f_equal. lia.
  - symmetry. apply lookup_ge_None_2. simpl. lia.
Qed.

Lemma entry_bytes_write_other isr index m j :
  length m = sizeof_idt ->
  j <> Byte.to_nat index ->
  entry_bytes (write_entry isr index m) j = entry_bytes m j.
Proof.
  intros Hlen Hj. apply entry_bytes_ext. intros k.
  rewrite sizeof_idt_entry_eq. intros Hk.
  rewrite write_entry_lookup by done. rewrite decide_False by lia. done.
Qed.

Lemma entry_bytes_cleared j :
  (j < idt_entries)%nat ->
  entry_bytes (replicate sizeof_idt x00) j = replicate sizeof_idt_entry x00.
Proof.
  unfold idt_entries. intros Hj. apply list_eq. intros k.
  rewrite entry_bytes_lookup, sizeof_idt_entry_eq, sizeof_idt_eq.
  case_decide as Hk.
  - rewrite !lookup_replicate_2 by lia. done.
  - symmetry. apply lookup_ge_None_2. rewrite length_replicate. lia.
Qed.

(** ** Closed forms of [init_idt] *)

Lemma lidt_closed st :
  lidt st =
    Some (Machine (idt st) (idtp st) (Some (idtp st)) (interrupt_flag st)
            (trace st ++ [EvLidt (idtp st)])).
Proof. reflexivity. Qed.

Lemma sti_closed st :
  sti st =
    Some (Machine (idt st) (idtp st) (idtr st) true (trace st ++ [EvSti])).
Proof. reflexivity. Qed.

Lemma init_idt_at_S k f st :
  init_idt_body !! k = Some f ->
  init_idt_at (S k) st = init_idt_at k st ≫= f.
Proof.
  intros Hf. unfold init_idt_at.
  rewrite (take_S_r _ _ _ Hf), run_app.
  destruct (run (take k init_idt_body) st) as [s|]; [|done].
  cbn [mbind option_bind]. rewrite run_cons.
  destruct (f s); reflexivity.
Qed.

Lemma init_idt_at_all k st :
  (length init_idt_body <= k)%nat -> init_idt_at k st = init_idt st.
Proof.
  intros Hk. unfold init_idt_at, init_idt. by rewrite take_ge.
Qed.

Lemma init_idt_point_well_formed k st :
  well_formed st -> well_formed (init_idt_point k st).
Proof.
  unfold well_formed. intros Hwf.
  do 8 (destruct k as [|k];
        [cbn [init_idt_point idt set_idtp]; unfold init_idt_table;
         rewrite ?write_entry_length, ?length_replicate; done|]).
  cbn [init_idt_point idt]. unfold init_idt_table.
  by rewrite !write_entry_length, length_replicate.
Qed.

Ltac point_step k lem :=
  rewrite (init_idt_at_S k _ _ eq_refl), lem;
  cbn [mbind option_bind idt idtp idtr interrupt_flag trace
         log set_idt set_idtp].

Lemma init_idt_at_closed k st :
  well_formed st ->
  init_idt_at k st = Some (init_idt_point k st).
Proof.
  intros Hwf.
  assert (H0 : init_idt_at 0 st = Some (init_idt_point 0 st)) by reflexivity.
  assert (H1 : init_idt_at 1 st = Some (init_idt_point 1 st)) by reflexivity.
  assert (H2 : init_idt_at 2 st = Some (init_idt_point 2 st)) by reflexivity.
  assert (H3 : init_idt_at 3 st = Some (init_idt_point 3 st)).
  { point_step 2%nat H2. rewrite memset_idt_closed by exact Hwf.
    reflexivity. }
  assert (H4 : init_idt_at 4 st = Some (init_idt_point 4 st)).
  { point_step 3%nat H3. rewrite lidt_closed.
    cbn [idt idtp idtr interrupt_flag trace init_idt_point].
    by rewrite <- app_assoc. }
  assert (H5 : init_idt_at 5 st = Some (init_idt_point 5 st)).
  { point_step 4%nat H4. unfold register_exceptions.
    rewrite register_isr_closed
      by (apply (init_idt_point_well_formed 4), Hwf).
    unfold log, set_idt.
    cbn [idt idtp idtr interrupt_flag trace init_idt_point].
    by rewrite <- app_assoc. }
  assert (H6 : init_idt_at 6 st = Some (init_idt_point 6 st)).
  { point_step 5%nat H5.
    rewrite register_isr_closed
      by (apply (init_idt_point_well_formed 5), Hwf).
    unfold log, set_idt.
    cbn [idt idtp idtr interrupt_flag trace init_idt_point].
    by rewrite <- app_assoc. }
  assert (H7 : init_idt_at 7 st = Some (init_idt_point 7 st)).
  { point_step 6%nat H6.
    rewrite register_isr_closed
      by (apply (init_idt_point_well_formed 6), Hwf).
    unfold log, set_idt.
    cbn [idt idtp idtr interrupt_flag trace init_idt_point].
    by rewrite <- app_assoc. }
  assert (H8 : init_idt_at 8 st = Some (init_idt_point 8 st)).
  { point_step 7%nat H7. rewrite sti_closed.
    cbn [idt idtp idtr interrupt_flag trace init_idt_point].
    by rewrite <- app_assoc. }
  do 8 (destruct k as [|k]; [assumption|]).
  rewrite init_idt_at_all by (simpl; lia).
  rewrite <- (init_idt_at_all 8) by (simpl; lia). exact H8.
Qed.

Lemma init_idt_closed st :
  well_formed st ->
  init_idt st =
    Some (Machine init_idt_table init_idtp (Some init_idtp) true
            (trace st ++ init_idt_events)).
Proof.
  intros Hwf. rewrite <- (init_idt_at_all 8) by (simpl; lia).
  by rewrite init_idt_at_closed.
Qed.

Lemma events_since_app st st' evs :
  trace st' = trace st ++ evs -> events_since st st' = evs.
Proof.
  unfold events_since. intros ->. by rewrite drop_app_length.
Qed.

Lemma init_idt_point_events k st :
  events_since st (init_idt_point k st) = take (k - 2) init_idt_events.
Proof.
  apply events_since_app.
  do 8 (destruct k as [|k];
        [cbn [init_idt_point trace set_idtp Nat.sub take];
         rewrite ?app_nil_r; reflexivity|]).
  cbn [init_idt_point trace]. f_equal.
  rewrite !take_ge by (simpl; lia). reflexivity.
Qed.

(** ** What a registration leaves in memory *)

Lemma load_entry_write_same isr index m :
  length m = sizeof_idt ->
  load_entry (write_entry isr index m) (Byte.to_nat index) =
    Some (IdtEntry (isr mod 2 ^ 16) (CODE_SEGMENT mod 2 ^ 16) 0 0x8E
            (Z.shiftr isr 16 mod 2 ^ 16)).
Proof.
  intros Hlen.
  rewrite load_entry_entry_bytes, entry_bytes_write_same by done.
  apply load_entry_image.
Qed.

Lemma load_entry_write_other isr index m j :
  length m = sizeof_idt ->
  j <> Byte.to_nat index ->
  load_entry (write_entry isr index m) j = load_entry m j.
Proof.
  intros Hlen Hj.
  rewrite load_entry_entry_bytes, entry_bytes_write_other by done.
  symmetry. apply load_entry_entry_bytes.
Qed.

Lemma load_entry_cleared j :
  (j < idt_entries)%nat ->
  load_entry (replicate sizeof_idt x00) j = Some zero_entry.
Proof.
  intros Hj. rewrite load_entry_entry_bytes, entry_bytes_cleared by done.
  reflexivity.
Qed.

Lemma address_of_halves a :
  0 <= a < 2 ^ 32 ->
  entry_address
    (IdtEntry (a mod 2 ^ 16) (CODE_SEGMENT mod 2 ^ 16) 0 0x8E
       (Z.shiftr a 16 mod 2 ^ 16)) = a.
Proof.
  intros Ha. unfold entry_address. cbn [offset_1 offset_2].
  rewrite lor_two_halves. apply Z.mod_small. exact Ha.
Qed.

(** ** The claims on [register_isr] *)

(** C1. For every vector index and every 32-bit handler entry address
    [a], after [register_isr] has written [a] into the slot of that index,
    the two offset halves of the slot, concatenated as
    [offset_2 << 16 | offset_1], are exactly [a]: [offset_1] holds bits
    0..15 and [offset_2] bits 16..31. *)
Theorem register_isr_address_roundtrip (a : Z) (index : byte) (st : machine) :
  well_formed st ->
  0 <= a < 2 ^ 32 ->
  exists st' e,
    register_isr a index st = Some st' /\
    load_entry (idt st') (Byte.to_nat index) = Some e /\
    offset_1 e = Z.land a 0xFFFF /\
    offset_2 e = Z.land (Z.shiftr a 16) 0xFFFF /\
    Z.lor (Z.shiftl (offset_2 e) 16) (offset_1 e) = a.
Proof.
  intros Hwf Ha. rewrite register_isr_closed by exact Hwf.
  eexists. eexists. split; [reflexivity|].
  cbn [idt log set_idt]. split; [by apply load_entry_write_same|].
  cbn [offset_1 offset_2].
  change 0xFFFF with (Z.ones 16). rewrite !Z.land_ones by lia.
  repeat split. by apply address_of_halves.
Qed.

(** C4. [register_isr] changes the one slot of its index and nothing
    else: the table keeps its size, every byte outside the slot and every
    other slot is unchanged, and so are [idtp], the table register and the
    interrupt flag.  In particular, from the cleared table, the three
    registrations of [init_idt] (vectors 8, 32 and 33) leave the other 253
    slots as they were after the clear, all zero. *)
Theorem register_isr_frame (isr : Z) (index : byte) (st : machine) :
  well_formed st ->
  (exists st',
     register_isr isr index st = Some st' /\
     length (idt st') = length (idt st) /\
     (forall p : nat,
        ~ (Byte.to_nat index * sizeof_idt_entry <= p
           < Byte.to_nat index * sizeof_idt_entry + sizeof_idt_entry)%nat ->
        idt st' !! p = idt st !! p) /\
     (forall j : nat,
        j <> Byte.to_nat index ->
        entry_bytes (idt st') j = entry_bytes (idt st) j) /\
     idtp st' = idtp st /\ idtr st' = idtr st /\
     interrupt_flag st' = interrupt_flag st) /\
  (exists cleared final,
     init_idt_at 3 st = Some cleared /\
     init_idt st = Some final /\
     forall j : byte,
       j <> x08 -> j <> x20 -> j <> x21 ->
       entry_bytes (idt final) (Byte.to_nat j) =
         entry_bytes (idt cleared) (Byte.to_nat j) /\
       absent_slot (idt final) (Byte.to_nat j)).
Proof.
  intros Hwf. split.
  - rewrite register_isr_closed by exact Hwf.
    eexists. split; [reflexivity|]. cbn [idt idtp idtr interrupt_flag log set_idt].
    split; [apply write_entry_length|].
    split; [|split; [|done]].
    + intros p Hp. rewrite sizeof_idt_entry_eq in Hp.
      rewrite write_entry_lookup by exact Hwf. by rewrite decide_False.
    + intros j Hj. by apply entry_bytes_write_other.
  - rewrite init_idt_at_closed, init_idt_closed by exact Hwf.
    eexists. eexists. split; [reflexivity|]. split; [reflexivity|].
    intros j H8 H32 H33. cbn [idt init_idt_point].
    assert (Hz : entry_bytes init_idt_table (Byte.to_nat j) =
                 entry_bytes (replicate sizeof_idt x00) (Byte.to_nat j)).
    { unfold init_idt_table.
      rewrite !entry_bytes_write_other;
        rewrite ?write_entry_length, ?length_replicate; try done;
        intros E; apply U8_to_nat_inj in E; done. }
    split; [exact Hz|].
    unfold absent_slot. rewrite Hz. apply entry_bytes_cleared.
    apply U8_to_nat_lt.
Qed.

(** A store at the first offset past the table is undefined: the bound of
    the index is what keeps [register_isr] defined. *)
Lemma store8_past_table b st :
  well_formed st -> store8 (idt_entries * sizeof_idt_entry) b (idt st) = None.
Proof.
  intros Hwf. apply store8_None. rewrite Hwf. reflexivity.
Qed.

(** C9. [register_isr] has no error result and no range check, and
    needs none: its index has the type [uint8_t], so it is below 256, the
    eight bytes of [idt[index]] lie inside the table, and the call is
    defined (no store falls outside [idt]) for every index and leaves a
    table of the same size. *)
Theorem register_isr_in_bounds (isr : Z) (index : byte) (st : machine) :
  well_formed st ->
  (Byte.to_nat index < idt_entries)%nat /\
  (Byte.to_nat index * sizeof_idt_entry + sizeof_idt_entry
   <= length (idt st))%nat /\
  exists st', register_isr isr index st = Some st' /\ well_formed st'.
Proof.
  intros Hwf. split; [apply U8_to_nat_lt|]. split.
  - rewrite Hwf. apply slot_in_bounds.
  - rewrite register_isr_closed by exact Hwf. eexists.
    split; [reflexivity|]. by apply register_isr_well_formed.
Qed.

(** ** Order of the events *)

Lemma forallb_not_lookup (p : event -> bool) tr i e :
  forallb (fun x => negb (p x)) tr = true ->
  tr !! i = Some e -> p e = false.
Proof.
  revert i. induction tr as [|x tr IH]; intros i Hall Hi; [done|].
  simpl in Hall. apply andb_true_iff in Hall as [Hx Hall].
  destruct i as [|i]; simpl in Hi.
  - injection Hi as <-. by apply negb_true_iff.
  - by apply (IH i).
Qed.

Lemma all_beforeb_sound p q tr :
  all_beforeb p q tr = true -> all_before p q tr.
Proof.
  induction tr as [|e tr IH]; intros Hb i j ei ej Hi Hj Hp Hq; [done|].
  cbn [all_beforeb] in Hb. destruct (q e) eqn:Hqe.
  - rewrite (forallb_not_lookup p _ i ei Hb Hi) in Hp. done.
  - destruct j as [|j]; simpl in Hj; [congruence|].
    destruct i as [|i]; simpl in Hi; [lia|].
    apply Nat.succ_lt_mono with (n := i). by apply (IH Hb i j ei ej).
Qed.

Lemma all_beforeb_complete p q tr :
  all_before p q tr -> all_beforeb p q tr = true.
Proof.
  induction tr as [|e tr IH]; intros H; [done|].
  cbn [all_beforeb]. destruct (q e) eqn:Hqe.
  - apply forallb_forall. intros x Hx. apply negb_true_iff.
    destruct (p x) eqn:Hpx; [|done].
    apply list_elem_of_In, list_elem_of_lookup in Hx as [i Hi].
    pose proof (H i 0%nat x e Hi eq_refl Hpx Hqe). lia.
  - apply IH. intros i j ei ej Hi Hj Hp Hq.
    apply Nat.succ_lt_mono. by apply (H (S i) (S j) ei ej).
Qed.

(** C2, amended.  In [init_idt] the table is loaded ([lidt]) after the
    clear and before the registrations: the order is clear, load table,
    populate the fixed vectors 8, 32 and 33, unmask.  The load and every
    registration come before [sti]. *)
Theorem init_idt_order (st : machine) :
  well_formed st ->
  exists st',
    init_idt st = Some st' /\
    events_since st st' =
      [ EvMemset; EvLidt init_idtp; EvRegister int08 x08;
        EvRegister int32 x20; EvRegister int33 x21; EvSti ] /\
    all_before is_memset is_lidt (events_since st st') /\
    all_before is_lidt is_register (events_since st st') /\
    all_before is_register is_sti (events_since st st').
Proof.
  intros Hwf. rewrite init_idt_closed by exact Hwf.
  eexists. split; [reflexivity|].
  rewrite (events_since_app st _ init_idt_events) by reflexivity.
  split; [reflexivity|].
  repeat split; apply all_beforeb_sound; reflexivity.
Qed.

(** C7. [sti] is the final step of [init_idt]: it is the last event, it
    occurs once, the table load and all three registrations come before
    it, and the interrupt flag is as it was on entry at every earlier
    point of the function and set at the end. *)
Theorem init_idt_sti_last (st : machine) :
  well_formed st ->
  exists st',
    init_idt st = Some st' /\
    last (events_since st st') = Some EvSti /\
    count_events is_sti (events_since st st') = 1%nat /\
    count_events is_lidt (events_since st st') = 1%nat /\
    count_events is_register (events_since st st') = 3%nat /\
    all_before is_lidt is_sti (events_since st st') /\
    all_before is_register is_sti (events_since st st') /\
    interrupt_flag st' = true /\
    forall k, (k < length init_idt_body)%nat ->
      exists st_k,
        init_idt_at k st = Some st_k /\
        interrupt_flag st_k = interrupt_flag st /\
        count_events is_sti (events_since st st_k) = 0%nat.
Proof.
  intros Hwf. rewrite init_idt_closed by exact Hwf.
  eexists. split; [reflexivity|].
  rewrite (events_since_app st _ init_idt_events) by reflexivity.
  do 4 (split; [reflexivity|]).
  do 2 (split; [apply all_beforeb_sound; reflexivity|]).
  split; [reflexivity|].
  intros k Hk. rewrite init_idt_at_closed by exact Hwf.
  eexists. split; [reflexivity|]. rewrite init_idt_point_events.
  simpl in Hk.
  do 8 (destruct k as [|k]; [split; reflexivity|]). lia.
Qed.

(** ** The claims on [init_idt] *)

(** C3. After the zero-fill of [init_idt] and before any registration,
    each of the 256 slots is entirely zero: its eight bytes are zero, so
    all five fields read zero and the presence flag reads absent.  The
    clear is reached from every state. *)
Theorem init_idt_cleared_slots_zero (st : machine) :
  well_formed st ->
  (exists st3,
     init_idt_at 3 st = Some st3 /\ events_since st st3 = [EvMemset]) /\
  forall k st_k,
    init_idt_at k st = Some st_k ->
    existsb is_memset (events_since st st_k) = true ->
    existsb is_register (events_since st st_k) = false ->
    forall index : byte,
      absent_slot (idt st_k) (Byte.to_nat index) /\
      exists e,
        load_entry (idt st_k) (Byte.to_nat index) = Some e /\
        offset_1 e = 0 /\ selector e = 0 /\ zero e = 0 /\ type e = 0 /\
        offset_2 e = 0 /\ present e = false.
Proof.
  intros Hwf. split.
  - rewrite init_idt_at_closed by exact Hwf. eexists.
    split; [reflexivity|]. by rewrite init_idt_point_events.
  - intros k st_k Hk. rewrite init_idt_at_closed in Hk by exact Hwf.
    injection Hk as <-. rewrite init_idt_point_events.
    intros Hm Hr index.
    assert (Hidt : idt (init_idt_point k st) = replicate sizeof_idt x00).
    { do 3 (destruct k as [|k]; [discriminate Hm|]).
      do 2 (destruct k as [|k]; [reflexivity|]).
      do 3 (destruct k as [|k]; [discriminate Hr|]).
      rewrite take_ge in Hr by (simpl; lia). discriminate Hr. }
    rewrite Hidt. pose proof (U8_to_nat_lt index) as Hi.
    split; [by apply entry_bytes_cleared|].
    exists zero_entry. split; [by apply load_entry_cleared|]. done.
Qed.

(** The state [init_idt] and the later calls keep: the table has its
    size, [idtp] holds the record of the table and the processor has
    loaded it. *)
Lemma exec_call_keeps_idtp c s :
  well_formed s /\ idtp s = init_idtp /\ idtr s = Some init_idtp ->
  exists s',
    exec_call c s = Some s' /\
    well_formed s' /\ idtp s' = init_idtp /\ idtr s' = Some init_idtp.
Proof.
  intros (Hwf & Hp & Hr). destruct c as [isr index| |]; cbn [exec_call].
  - rewrite register_isr_closed by exact Hwf. eexists.
    split; [reflexivity|]. split; [by apply register_isr_well_formed|done].
  - unfold register_exceptions.
    rewrite register_isr_closed by exact Hwf. eexists.
    split; [reflexivity|]. split; [by apply register_isr_well_formed|done].
  - rewrite init_idt_closed by exact Hwf. eexists.
    split; [reflexivity|]. split; [|done].
    apply (init_idt_point_well_formed 8 s Hwf).
Qed.

Lemma exec_calls_invariant (P : machine -> Prop) cs st :
  (forall c s, P s -> exists s', exec_call c s = Some s' /\ P s') ->
  P st ->
  exists st', exec_calls cs st = Some st' /\ P st'.
Proof.
  intros Hc HP. unfold exec_calls. apply run_invariant; [|exact HP].
  apply Forall_fmap, Forall_forall. intros c _ s. apply Hc.
Qed.

(** C5. After the two assignments at the head of [init_idt], the limit
    in [idtp] is 2047, that is 8 * 256 - 1, and the base is the location
    of the table; no later statement of [init_idt] and no later call of
    the functions of this file changes either, and the processor's table
    register holds the same record. *)
Theorem idtp_limit_and_base (st : machine) :
  well_formed st ->
  0 <= idt_location < 2 ^ 32 ->
  2047 = 8 * 256 - 1 /\
  2047 = Z.of_nat sizeof_idt - 1 /\
  (forall k, (2 <= k)%nat ->
     exists st_k,
       init_idt_at k st = Some st_k /\
       idtp_size (idtp st_k) = 2047 /\
       idtp_addr (idtp st_k) = idt_location) /\
  (forall cs,
     exists st',
       exec_calls (CallInitIdt :: cs) st = Some st' /\
       idtp_size (idtp st') = 2047 /\
       idtp_addr (idtp st') = idt_location /\
       idtr st' = Some (IdtPtr 2047 idt_location)).
Proof.
  intros Hwf Hloc.
  assert (Hv : init_idtp = IdtPtr 2047 idt_location).
  { unfold init_idtp. f_equal. by apply Z.mod_small. }
  split; [reflexivity|]. split; [reflexivity|]. split.
  - intros k Hk. rewrite init_idt_at_closed by exact Hwf. eexists.
    split; [reflexivity|].
    assert (Hp : idtp (init_idt_point k st) = init_idtp).
    { do 2 (destruct k as [|k]; [lia|]).
      do 6 (destruct k as [|k]; [reflexivity|]). reflexivity. }
    rewrite Hp, Hv. done.
  - intros cs. unfold exec_calls. cbn [fmap list_fmap exec_call].
    rewrite run_cons, init_idt_closed by exact Hwf.
    cbn [mbind option_bind].
    edestruct (exec_calls_invariant
                 (fun s => well_formed s /\ idtp s = init_idtp /\
                           idtr s = Some init_idtp) cs)
      as (st' & Hst' & _ & Hp & Hr);
      [apply exec_call_keeps_idtp | | ].
    + split; [apply (init_idt_point_well_formed 8 st Hwf)|].
      split; reflexivity.
    + exists st'. split; [exact Hst'|]. rewrite Hp, Hr, Hv. done.
Qed.

(** The three slots [init_idt] registers, in the finished table. *)
Lemma init_idt_table_slots :
  load_entry init_idt_table 8 =
    Some (IdtEntry (int08 mod 2 ^ 16) (CODE_SEGMENT mod 2 ^ 16) 0 0x8E
            (Z.shiftr int08 16 mod 2 ^ 16)) /\
  load_entry init_idt_table 32 =
    Some (IdtEntry (int32 mod 2 ^ 16) (CODE_SEGMENT mod 2 ^ 16) 0 0x8E
            (Z.shiftr int32 16 mod 2 ^ 16)) /\
  load_entry init_idt_table 33 =
    Some (IdtEntry (int33 mod 2 ^ 16) (CODE_SEGMENT mod 2 ^ 16) 0 0x8E
            (Z.shiftr int33 16 mod 2 ^ 16)).
Proof.
  assert (Hlen0 : length (replicate sizeof_idt x00) = sizeof_idt)
    by apply length_replicate.
  assert (Hlen1 : length (write_entry int08 x08 (replicate sizeof_idt x00))
                  = sizeof_idt)
    by (by rewrite write_entry_length).
  assert (Hlen2 : length (write_entry int32 x20
                            (write_entry int08 x08
                               (replicate sizeof_idt x00)))
                  = sizeof_idt)
    by (by rewrite write_entry_length).
  unfold init_idt_table. split; [|split].
  - change 8%nat with (Byte.to_nat x08).
    rewrite (load_entry_write_other int33 x21) by (exact Hlen2 || discriminate).
    rewrite (load_entry_write_other int32 x20) by (exact Hlen1 || discriminate).
    apply load_entry_write_same, Hlen0.
  - change 32%nat with (Byte.to_nat x20).
    rewrite (load_entry_write_other int33 x21) by (exact Hlen2 || discriminate).
    apply load_entry_write_same, Hlen1.
  - change 33%nat with (Byte.to_nat x21).
    apply load_entry_write_same, Hlen2.
Qed.

(** C8. [init_idt] registers the double-fault handler [int08] at vector
    8, the clock handler [int32] at vector 32 and the keyboard handler
    [int33] at vector 33: when it returns, these three slots hold the
    handlers' addresses and their presence flags are set. *)
Theorem init_idt_registers_fixed_vectors (st : machine) :
  well_formed st ->
  0 <= int08 < 2 ^ 32 -> 0 <= int32 < 2 ^ 32 -> 0 <= int33 < 2 ^ 32 ->
  exists st' e8 e32 e33,
    init_idt st = Some st' /\
    List.filter is_register (events_since st st') =
      [EvRegister int08 x08; EvRegister int32 x20; EvRegister int33 x21] /\
    load_entry (idt st') 8 = Some e8 /\
    entry_address e8 = int08 /\ present e8 = true /\
    load_entry (idt st') 32 = Some e32 /\
    entry_address e32 = int32 /\ present e32 = true /\
    load_entry (idt st') 33 = Some e33 /\
    entry_address e33 = int33 /\ present e33 = true.
Proof.
  intros Hwf H8 H32 H33. rewrite init_idt_closed by exact Hwf.
  destruct init_idt_table_slots as (E8 & E32 & E33).
  eexists. eexists. eexists. eexists. split; [reflexivity|].
  rewrite (events_since_app st _ init_idt_events) by reflexivity.
  split; [reflexivity|]. cbn [idt].
  split; [exact E8|]. split; [by apply address_of_halves|].
  split; [reflexivity|].
  split; [exact E32|]. split; [by apply address_of_halves|].
  split; [reflexivity|].
  split; [exact E33|]. split; [by apply address_of_halves|].
  reflexivity.
Qed.

(** C6, amended.  For every registration by [register_isr], the
    selector of the written slot is the configured code-segment selector
    and its reserved byte is zero; the attribute byte is the constant 0x8E
    (presence set, privilege level 0, interrupt or trap descriptor, 32-bit
    interrupt gate), written by [register_isr] itself, which has no
    attribute parameter. *)
Theorem register_isr_fixed_fields (isr : Z) (index : byte) (st : machine) :
  well_formed st ->
  0 <= CODE_SEGMENT < 2 ^ 16 ->
  exists st' e,
    register_isr isr index st = Some st' /\
    load_entry (idt st') (Byte.to_nat index) = Some e /\
    selector e = CODE_SEGMENT /\
    zero e = 0 /\
    type e = 0x8E /\
    present e = true /\
    privilege_level e = 0 /\
    storage_segment e = false /\
    gate_type e = 0xE.
Proof.
  intros Hwf Hcs. rewrite register_isr_closed by exact Hwf.
  eexists. eexists. split; [reflexivity|]. cbn [idt log set_idt].
  split; [by apply load_entry_write_same|].
  cbn [selector zero type]. split; [by apply Z.mod_small|]. done.
Qed.

(** ** The invariant of the table *)

Lemma slot_invariant_write isr index m (j : byte) :
  0 <= CODE_SEGMENT < 2 ^ 16 ->
  length m = sizeof_idt ->
  slot_invariant m (Byte.to_nat j) ->
  slot_invariant (write_entry isr index m) (Byte.to_nat j).
Proof.
  intros Hcs Hlen Hj. destruct (decide (Byte.to_nat j = Byte.to_nat index)) as [E|E].
  - right. rewrite E. eexists. split; [by apply load_entry_write_same|].
    split; [done|]. split; [by apply Z.mod_small | done].
  - unfold slot_invariant, absent_slot in *.
    rewrite entry_bytes_write_other, load_entry_write_other by done.
    exact Hj.
Qed.

Lemma table_invariant_write isr index st :
  0 <= CODE_SEGMENT < 2 ^ 16 ->
  table_invariant st ->
  table_invariant
    (log (EvRegister isr index) (set_idt (write_entry isr index (idt st)) st)).
Proof.
  intros Hcs (Hwf & Hslots).
  split; [by apply register_isr_well_formed|].
  intros j. cbn [idt log set_idt]. by apply slot_invariant_write.
Qed.

Lemma table_invariant_init_idt st :
  0 <= CODE_SEGMENT < 2 ^ 16 ->
  well_formed st ->
  table_invariant (init_idt_point 8 st).
Proof.
  intros Hcs Hwf. split; [by apply init_idt_point_well_formed|].
  intros j. cbn [idt init_idt_point]. unfold init_idt_table.
  do 3 (apply slot_invariant_write;
        [done | by rewrite ?write_entry_length, length_replicate |]).
  left. apply entry_bytes_cleared, U8_to_nat_lt.
Qed.

Lemma exec_call_keeps_invariant c s :
  0 <= CODE_SEGMENT < 2 ^ 16 ->
  table_invariant s ->
  exists s', exec_call c s = Some s' /\ table_invariant s'.
Proof.
  intros Hcs Hinv. pose proof Hinv as (Hwf & _).
  destruct c as [isr index| |]; cbn [exec_call].
  - rewrite register_isr_closed by exact Hwf. eexists.
    split; [reflexivity|]. by apply table_invariant_write.
  - unfold register_exceptions.
    rewrite register_isr_closed by exact Hwf. eexists.
    split; [reflexivity|]. by apply table_invariant_write.
  - rewrite init_idt_closed by exact Hwf. eexists.
    split; [reflexivity|]. by apply table_invariant_init_idt.
Qed.

(** C10. Every function of the file keeps the invariant of the table:
    each of the 256 slots is either entirely zero or holds the attribute
    byte 0x8E, the configured code-segment selector and a zero reserved
    byte.  [init_idt] establishes it from any state; [register_isr],
    [register_exceptions] and [init_idt] are defined on every state that
    has it and keep it, and so does every sequence of calls: no call
    installs another attribute byte or selector. *)
Theorem table_invariant_kept :
  0 <= CODE_SEGMENT < 2 ^ 16 ->
  (forall st, well_formed st ->
     exists st', init_idt st = Some st' /\ table_invariant st') /\
  (forall c st, table_invariant st ->
     exists st', exec_call c st = Some st' /\ table_invariant st') /\
  (forall cs st, table_invariant st ->
     exists st', exec_calls cs st = Some st' /\ table_invariant st') /\
  (forall st (index : byte) e,
     table_invariant st ->
     load_entry (idt st) (Byte.to_nat index) = Some e ->
     e = zero_entry \/
     (type e = 0x8E /\ selector e = CODE_SEGMENT /\ zero e = 0)).
Proof.
  intros Hcs. split; [|split; [|split]].
  - intros st Hwf. rewrite init_idt_closed by exact Hwf. eexists.
    split; [reflexivity|]. by apply table_invariant_init_idt.
  - intros c st. by apply exec_call_keeps_invariant.
  - intros cs st. apply exec_calls_invariant.
    intros c s. by apply exec_call_keeps_invariant.
  - intros st index e (Hwf & Hslots) He.
    destruct (Hslots index) as [Habs|(e' & He' & Hf)].
    + left. unfold absent_slot in Habs.
      rewrite load_entry_entry_bytes, Habs in He.
      by injection He as <-.
    + right. rewrite He in He'. by injection He' as <-.
Qed.

(** ** Further properties of [register_isr] *)

Lemma write_entry_overwrite a b index m :
  length m = sizeof_idt ->
  write_entry b index (write_entry a index m) = write_entry b index m.
Proof.
  intros Hlen. apply list_eq. intros p.
  rewrite !write_entry_lookup by (by rewrite ?write_entry_length).
  by case_decide.
Qed.


(** X1. The bytes of a registered gate, in memory order: the two low
    bytes of the address, the selector low byte first, a zero byte, the
    byte 0x8E, and the two high bytes of the address. *)
Theorem register_isr_slot_layout (isr : Z) (index : byte) (st : machine) :
  well_formed st ->
  0 <= isr < 2 ^ 32 ->
  0 <= CODE_SEGMENT < 2 ^ 16 ->
  exists st',
    register_isr isr index st = Some st' /\
    U8.to_Z <$> entry_bytes (idt st') (Byte.to_nat index) =
      [ isr mod 2 ^ 8;
        isr / 2 ^ 8 mod 2 ^ 8;
        CODE_SEGMENT mod 2 ^ 8;
        CODE_SEGMENT / 2 ^ 8;
        0;
        0x8E;
        isr / 2 ^ 16 mod 2 ^ 8;
        isr / 2 ^ 24 ].
Proof.
  intros Hwf Hisr Hcs. rewrite register_isr_closed by exact Hwf.
  eexists. split; [reflexivity|]. cbn [idt log set_idt].
  rewrite entry_bytes_write_same by exact Hwf.
  unfold entry_image, isr_byte_array. cbn [fmap list_fmap].
  rewrite !U8_to_of_Z, !Z.shiftr_div_pow2 by lia.
  change (8 * 0) with 0. change (8 * 1) with 8.
  change (8 * 2) with 16. change (8 * 3) with 24.
  change (2 ^ 0) with 1. rewrite Z.div_1_r.
  rewrite (Z.mod_small CODE_SEGMENT (2 ^ 16)) by exact Hcs.
  change 256 with (2 ^ 8).
  assert (Hc : 0 <= CODE_SEGMENT / 2 ^ 8 < 2 ^ 8).
  { split; [apply Z.div_pos; lia | apply Z.div_lt_upper_bound; lia]. }
  assert (Hi : 0 <= isr / 2 ^ 24 < 2 ^ 8).
  { split; [apply Z.div_pos; lia | apply Z.div_lt_upper_bound; lia]. }
  rewrite (Z.mod_small _ _ Hc), (Z.mod_small _ _ Hi).
  reflexivity.
Qed.

(** X2. Registering twice at the same vector overwrites: the table after
    [register_isr a] and then [register_isr b] at one index is the table
    after [register_isr b] alone. *)
Theorem register_isr_overwrites (a b : Z) (index : byte) (st : machine) :
  well_formed st ->
  exists st1 st2 st2',
    register_isr a index st = Some st1 /\
    register_isr b index st1 = Some st2 /\
    register_isr b index st = Some st2' /\
    idt st2 = idt st2'.
Proof.
  intros Hwf.
  rewrite !register_isr_closed by exact Hwf.
  eexists. eexists. eexists. split; [reflexivity|].
  rewrite register_isr_closed by (by apply register_isr_well_formed).
  split; [reflexivity|]. split; [reflexivity|].
  cbn [idt log set_idt]. by apply write_entry_overwrite.
Qed.


(** ** Further properties of [init_idt] and of sequences of calls *)

Lemma load_entry_init_idt_table_other (index : byte) :
  index <> x08 -> index <> x20 -> index <> x21 ->
  load_entry init_idt_table (Byte.to_nat index) = Some zero_entry.
Proof.
  intros H8 H32 H33. unfold init_idt_table.
  assert (Hlen0 : length (replicate sizeof_idt x00) = sizeof_idt)
    by apply length_replicate.
  rewrite !load_entry_write_other;
    [ apply load_entry_cleared, U8_to_nat_lt
    | exact Hlen0
    | intros E; by apply U8_to_nat_inj in E
    | by rewrite write_entry_length
    | intros E; by apply U8_to_nat_inj in E
    | by rewrite !write_entry_length
    | intros E; by apply U8_to_nat_inj in E ].
Qed.

(** X4. The result of [init_idt] does not depend on the state it starts
    from: from any two states it builds the same table, the same [idtp]
    and table register, sets the interrupt flag and logs the same events.
    So a second [init_idt] changes nothing, and registrations made before
    [init_idt] are discarded. *)
Theorem init_idt_forgets_prior_state (st1 st2 : machine) :
  well_formed st1 ->
  well_formed st2 ->
  exists st1' st2',
    init_idt st1 = Some st1' /\
    init_idt st2 = Some st2' /\
    idt st1' = idt st2' /\
    idtp st1' = idtp st2' /\
    idtr st1' = idtr st2' /\
    interrupt_flag st1' = true /\
    interrupt_flag st2' = true /\
    events_since st1 st1' = events_since st2 st2'.
Proof.
  intros Hwf1 Hwf2. rewrite !init_idt_closed by assumption.
  eexists. eexists. split; [reflexivity|]. split; [reflexivity|].
  rewrite !(events_since_app _ _ init_idt_events) by reflexivity. done.
Qed.

(** X5. When [init_idt] returns, the gates of vectors 8, 32 and 33 are
    present and no other: every slot decodes, and its presence flag is set
    exactly when its index is 8, 32 or 33. *)
Theorem init_idt_present_exactly (st : machine) :
  well_formed st ->
  exists st',
    init_idt st = Some st' /\
    forall index : byte,
      exists e,
        load_entry (idt st') (Byte.to_nat index) = Some e /\
        (present e = true <-> index = x08 \/ index = x20 \/ index = x21).
Proof.
  intros Hwf. rewrite init_idt_closed by exact Hwf.
  eexists. split; [reflexivity|]. cbn [idt]. intros index.
  destruct init_idt_table_slots as (E8 & E32 & E33).
  destruct (decide (Byte.to_nat index = 8%nat)) as [D8|D8].
  { apply (U8_to_nat_inj index x08) in D8. subst index.
    eexists. split; [exact E8|]. split; [by left | reflexivity]. }
  destruct (decide (Byte.to_nat index = 32%nat)) as [D32|D32].
  { apply (U8_to_nat_inj index x20) in D32. subst index.
    eexists. split; [exact E32|]. split; [by right; left | reflexivity]. }
  destruct (decide (Byte.to_nat index = 33%nat)) as [D33|D33].
  { apply (U8_to_nat_inj index x21) in D33. subst index.
    eexists. split; [exact E33|]. split; [by right; right | reflexivity]. }
  exists zero_entry. split.
  - apply load_entry_init_idt_table_other; intros ->;
      [exact (D8 eq_refl) | exact (D32 eq_refl) | exact (D33 eq_refl)].
  - split; [discriminate|].
    intros [->|[->| ->]];
      [destruct (D8 eq_refl) | destruct (D32 eq_refl) | destruct (D33 eq_refl)].
Qed.

(** X6. No function of the file masks interrupts or reloads the table
    register behind the caller's back: a sequence of calls is defined on
    every well-formed state; if it has no [init_idt], the interrupt flag,
    the table register and [idtp] are as before; if it has one, the flag is
    set and the register holds the record of the table; and a flag that is
    set stays set. *)
Theorem calls_never_mask_interrupts (cs : list call) (st : machine) :
  well_formed st ->
  exists st',
    exec_calls cs st = Some st' /\
    well_formed st' /\
    (interrupt_flag st = true -> interrupt_flag st' = true) /\
    (existsb is_init_call cs = false ->
       interrupt_flag st' = interrupt_flag st /\
       idtr st' = idtr st /\ idtp st' = idtp st) /\
    (existsb is_init_call cs = true ->
       interrupt_flag st' = true /\
       idtr st' = Some init_idtp /\ idtp st' = init_idtp).
Proof.
  revert st. unfold exec_calls.
  induction cs as [|c cs IH]; intros st Hwf.
  - exists st. cbn. repeat split; done.
  - cbn [fmap list_fmap]. rewrite run_cons.
    destruct c as [isr index| |]; cbn [exec_call existsb is_init_call orb].
    + rewrite register_isr_closed by exact Hwf. cbn [mbind option_bind].
      destruct (IH _ (register_isr_well_formed isr index st Hwf))
        as (st' & Hst' & Hwf' & Hkeep & Hno & Hyes).
      exists st'. split; [exact Hst'|]. split; [exact Hwf'|].
      split; [exact Hkeep|]. split; [exact Hno | exact Hyes].
    + unfold register_exceptions.
      rewrite register_isr_closed by exact Hwf. cbn [mbind option_bind].
      destruct (IH _ (register_isr_well_formed int08 x08 st Hwf))
        as (st' & Hst' & Hwf' & Hkeep & Hno & Hyes).
      exists st'. split; [exact Hst'|]. split; [exact Hwf'|].
      split; [exact Hkeep|]. split; [exact Hno | exact Hyes].
    + rewrite init_idt_closed by exact Hwf. cbn [mbind option_bind].
      destruct (IH _ (init_idt_point_well_formed 8 st Hwf))
        as (st' & Hst' & Hwf' & Hkeep & Hno & Hyes).
      cbn [init_idt_point] in Hst', Hkeep, Hno, Hyes.
      exists st'. split; [exact Hst'|]. split; [exact Hwf'|].
      cbn [interrupt_flag idtr idtp] in Hkeep, Hno, Hyes.
      split; [intros _; by apply Hkeep|].
      split; [discriminate|]. intros _.
      destruct (existsb is_init_call cs) eqn:E.
      * by apply Hyes.
      * destruct (Hno eq_refl) as (-> & -> & ->). done.
Qed.

(** X7. The limit [init_idt] gives the processor covers the table and
    no more: the limit plus one is the size of the table in bytes, and the
    last byte of the gate of every vector lies within the limit. *)
Theorem idtr_limit_covers_table (st : machine) :
  well_formed st ->
  exists st' r,
    init_idt st = Some st' /\
    idtr st' = Some r /\
    idtp_size r + 1 = Z.of_nat (length (idt st')) /\
    forall index : byte,
      Z.of_nat (Byte.to_nat index * sizeof_idt_entry + sizeof_idt_entry) - 1
      <= idtp_size r.
Proof.
  intros Hwf. rewrite init_idt_closed by exact Hwf.
  eexists. eexists. split; [reflexivity|]. split; [reflexivity|].
  cbn [idt idtp_size init_idtp]. split.
  - unfold init_idt_table. rewrite !write_entry_length, length_replicate.
    reflexivity.
  - intros index. pose proof (slot_in_bounds index) as Hb.
    rewrite sizeof_idt_eq in Hb.
    change ((Z.of_nat sizeof_idt_entry * 256 - 1) mod 2 ^ 16) with 2047.
    lia.
Qed.

(** X8. The file has no way to remove a handler but [init_idt]: under a
    sequence of calls of [register_isr] and [register_exceptions], a slot
    whose presence flag is set keeps it set, whatever is registered,
    a null handler included. *)
Theorem registered_slot_stays_present
  (cs : list call) (index : byte) (st : machine) (e : idt_entry) :
  well_formed st ->
  existsb is_init_call cs = false ->
  load_entry (idt st) (Byte.to_nat index) = Some e ->
  present e = true ->
  exists st' e',
    exec_calls cs st = Some st' /\
    load_entry (idt st') (Byte.to_nat index) = Some e' /\
    present e' = true.
Proof.
  revert st e. unfold exec_calls.
  assert (Hreg : forall isr j st e,
             well_formed st ->
             load_entry (idt st) (Byte.to_nat index) = Some e ->
             present e = true ->
             exists e',
               load_entry (write_entry isr j (idt st)) (Byte.to_nat index)
                 = Some e' /\ present e' = true).
  { intros isr j st e Hwf He Hp.
    destruct (decide (Byte.to_nat index = Byte.to_nat j)) as [E|E].
    - rewrite E. eexists. split; [by apply load_entry_write_same|].
      reflexivity.
    - exists e. split; [|exact Hp].
      by rewrite load_entry_write_other. }
  induction cs as [|c cs IH]; intros st e Hwf Hcs He Hp.
  - exists st, e. done.
  - cbn [fmap list_fmap]. rewrite run_cons.
    destruct c as [isr j| |]; cbn [existsb is_init_call orb] in Hcs;
      [| |discriminate Hcs]; cbn [exec_call].
    + rewrite register_isr_closed by exact Hwf. cbn [mbind option_bind].
      destruct (Hreg isr j st e Hwf He Hp) as (e1 & He1 & Hp1).
      apply (IH _ e1);
        [by apply register_isr_well_formed | exact Hcs | exact He1 | exact Hp1].
    + unfold register_exceptions.
      rewrite register_isr_closed by exact Hwf. cbn [mbind option_bind].
      destruct (Hreg int08 x08 st e Hwf He Hp) as (e1 & He1 & Hp1).
      apply (IH _ e1);
        [by apply register_isr_well_formed | exact Hcs | exact He1 | exact Hp1].
Qed.

End Idt.

(** ** The claims at concrete inputs

    The end-to-end scenario: a stale table, the selector 0x08, the table at
    0x00105000 and the handlers at 0x00100020, 0x00100040 and 0x00100060. *)

Local Abbreviation example_register_isr := (register_isr example_selector).
Local Abbreviation example_init_idt :=
  (init_idt example_selector example_location
     example_int08 example_int32 example_int33).
Local Abbreviation example_init_idt_at :=
  (init_idt_at example_selector example_location
     example_int08 example_int32 example_int33).

Lemma register_isr_address_roundtrip_witness :
  well_formed stale_state /\
  0 <= example_int08 < 2 ^ 32 /\
  exists st' e,
    example_register_isr example_int08 x08 stale_state = Some st' /\
    load_entry (idt st') (Byte.to_nat x08) = Some e /\
    offset_1 e = Z.land example_int08 0xFFFF /\
    offset_2 e = Z.land (Z.shiftr example_int08 16) 0xFFFF /\
    Z.lor (Z.shiftl (offset_2 e) 16) (offset_1 e) = example_int08.
Proof.
  split; [reflexivity|]. split; [unfold example_int08; lia|].
  apply register_isr_address_roundtrip;
    [reflexivity | unfold example_int08; lia].
Defined.

(** C2 as stated fails: in [init_idt] the registrations do not come before
    the table load.  On the scenario, the registration of vector 8 is the
    third event and [lidt] the second. *)
Lemma init_idt_registers_after_lidt :
  exists st',
    example_init_idt stale_state = Some st' /\
    events_since stale_state st' !! 1%nat =
      Some (EvLidt (IdtPtr 2047 example_location)) /\
    events_since stale_state st' !! 2%nat =
      Some (EvRegister example_int08 x08) /\
    ~ all_before is_register is_lidt (events_since stale_state st').
Proof.
  rewrite init_idt_closed by reflexivity. eexists. split; [reflexivity|].
  rewrite (events_since_app stale_state _
             (init_idt_events example_location
                example_int08 example_int32 example_int33))
    by reflexivity.
  split; [reflexivity|]. split; [reflexivity|].
  intros H.
  pose proof (H 2%nat 1%nat _ _ eq_refl eq_refl eq_refl eq_refl). lia.
Qed.

Lemma init_idt_order_witness :
  well_formed stale_state /\
  exists st',
    example_init_idt stale_state = Some st' /\
    events_since stale_state st' =
      [ EvMemset;
        EvLidt (init_idtp example_location);
        EvRegister example_int08 x08;
        EvRegister example_int32 x20;
        EvRegister example_int33 x21;
        EvSti ] /\
    all_before is_memset is_lidt (events_since stale_state st') /\
    all_before is_lidt is_register (events_since stale_state st') /\
    all_before is_register is_sti (events_since stale_state st').
Proof.
  split; [reflexivity|]. apply init_idt_order. reflexivity.
Defined.

Lemma init_idt_cleared_slots_zero_witness :
  well_formed stale_state /\
  exists st4,
    example_init_idt_at 4 stale_state = Some st4 /\
    existsb is_memset (events_since stale_state st4) = true /\
    existsb is_register (events_since stale_state st4) = false /\
    forall index : byte,
      absent_slot (idt st4) (Byte.to_nat index) /\
      exists e,
        load_entry (idt st4) (Byte.to_nat index) = Some e /\
        offset_1 e = 0 /\ selector e = 0 /\ zero e = 0 /\ type e = 0 /\
        offset_2 e = 0 /\ present e = false.
Proof.
  split; [reflexivity|].
  destruct (init_idt_cleared_slots_zero example_selector example_location
              example_int08 example_int32 example_int33 stale_state eq_refl)
    as [_ H].
  eexists. split; [apply init_idt_at_closed; reflexivity|].
  split; [reflexivity|]. split; [reflexivity|].
  apply (H 4%nat); [apply init_idt_at_closed | |]; reflexivity.
Defined.

Lemma register_isr_frame_witness :
  well_formed stale_state /\
  (exists st',
     example_register_isr example_int32 x20 stale_state = Some st' /\
     entry_bytes (idt st') 31 = entry_bytes (idt stale_state) 31 /\
     entry_bytes (idt st') 33 = entry_bytes (idt stale_state) 33 /\
     idt st' !! 255%nat = idt stale_state !! 255%nat /\
     idt st' !! 264%nat = idt stale_state !! 264%nat) /\
  (exists final,
     example_init_idt stale_state = Some final /\
     absent_slot (idt final) 9 /\ absent_slot (idt final) 255).
Proof.
  split; [reflexivity|].
  destruct (register_isr_frame example_selector example_location
              example_int08 example_int32 example_int33
              example_int32 x20 stale_state eq_refl)
    as [(st' & Hst' & _ & Hbytes & Hslots & _)
        (cleared & final & _ & Hfinal & Hrest)].
  split.
  - exists st'. split; [exact Hst'|].
    split; [apply Hslots; discriminate|].
    split; [apply Hslots; discriminate|].
    split; apply Hbytes; vm_compute; lia.
  - exists final. split; [exact Hfinal|].
    split.
    + apply (Hrest x09); discriminate.
    + apply (Hrest xff); discriminate.
Defined.

Lemma idtp_limit_and_base_witness :
  well_formed stale_state /\
  0 <= example_location < 2 ^ 32 /\
  (exists st2,
     example_init_idt_at 2 stale_state = Some st2 /\
     idtp_size (idtp st2) = 2047 /\
     idtp_addr (idtp st2) = example_location) /\
  (exists st',
     exec_calls example_selector example_location
       example_int08 example_int32 example_int33
       [CallInitIdt; CallRegisterIsr example_int33 x80; CallRegisterExceptions]
       stale_state = Some st' /\
     idtp_size (idtp st') = 2047 /\
     idtp_addr (idtp st') = example_location /\
     idtr st' = Some (IdtPtr 2047 example_location)).
Proof.
  assert (Hloc : 0 <= example_location < 2 ^ 32)
    by (unfold example_location; lia).
  split; [reflexivity|]. split; [exact Hloc|].
  destruct (idtp_limit_and_base example_selector example_location
              example_int08 example_int32 example_int33 stale_state
              eq_refl Hloc)
    as (_ & _ & Hpoints & Hcalls).
  split.
  - apply (Hpoints 2%nat). lia.
  - apply (Hcalls [CallRegisterIsr example_int33 x80; CallRegisterExceptions]).
Defined.

(** C6 as stated fails: the attribute byte is not supplied by the caller.
    A caller who wants the trap gate 0x8F at vector 8 has no way to pass it,
    and [register_isr] stores 0x8E. *)
Lemma register_isr_attribute_not_supplied :
  let attribute_byte := x8f in
  exists st' e,
    example_register_isr example_int08 x08 stale_state = Some st' /\
    load_entry (idt st') 8 = Some e /\
    type e = 0x8E /\
    type e <> U8.to_Z attribute_byte.
Proof.
  intros attribute_byte.
  rewrite register_isr_closed by reflexivity.
  eexists. eexists. split; [reflexivity|].
  split; [apply (load_entry_write_same example_selector example_int08 x08);
          reflexivity|].
  split; [reflexivity|]. vm_compute. discriminate.
Qed.

Lemma register_isr_fixed_fields_witness :
  well_formed stale_state /\
  0 <= example_selector < 2 ^ 16 /\
  exists st' e,
    example_register_isr example_int08 x08 stale_state = Some st' /\
    load_entry (idt st') (Byte.to_nat x08) = Some e /\
    selector e = example_selector /\
    zero e = 0 /\
    type e = 0x8E /\
    present e = true /\
    privilege_level e = 0 /\
    storage_segment e = false /\
    gate_type e = 0xE.
Proof.
  split; [reflexivity|]. split; [unfold example_selector; lia|].
  apply register_isr_fixed_fields; [reflexivity | unfold example_selector; lia].
Defined.

Lemma init_idt_sti_last_witness :
  well_formed stale_state /\
  exists st',
    example_init_idt stale_state = Some st' /\
    last (events_since stale_state st') = Some EvSti /\
    count_events is_sti (events_since stale_state st') = 1%nat /\
    interrupt_flag st' = true.
Proof.
  split; [reflexivity|].
  destruct (init_idt_sti_last example_selector example_location
              example_int08 example_int32 example_int33 stale_state eq_refl)
    as (st' & Hst' & Hlast & Hcount & _ & _ & _ & _ & Hflag & _).
  exists st'. repeat split; assumption.
Defined.

Lemma init_idt_registers_fixed_vectors_witness :
  well_formed stale_state /\
  0 <= example_int08 < 2 ^ 32 /\
  0 <= example_int32 < 2 ^ 32 /\
  0 <= example_int33 < 2 ^ 32 /\
  exists st' e8 e32 e33,
    example_init_idt stale_state = Some st' /\
    List.filter is_register (events_since stale_state st') =
      [ EvRegister example_int08 x08;
        EvRegister example_int32 x20;
        EvRegister example_int33 x21 ] /\
    load_entry (idt st') 8 = Some e8 /\
    entry_address e8 = example_int08 /\ present e8 = true /\
    load_entry (idt st') 32 = Some e32 /\
    entry_address e32 = example_int32 /\ present e32 = true /\
    load_entry (idt st') 33 = Some e33 /\
    entry_address e33 = example_int33 /\ present e33 = true.
Proof.
  assert (H8 : 0 <= example_int08 < 2 ^ 32) by (unfold example_int08; lia).
  assert (H32 : 0 <= example_int32 < 2 ^ 32) by (unfold example_int32; lia).
  assert (H33 : 0 <= example_int33 < 2 ^ 32) by (unfold example_int33; lia).
  split; [reflexivity|]. do 3 (split; [assumption|]).
  apply init_idt_registers_fixed_vectors; [reflexivity | assumption ..].
Defined.

Lemma register_isr_in_bounds_witness :
  well_formed stale_state /\
  (Byte.to_nat xff < idt_entries)%nat /\
  (Byte.to_nat xff * sizeof_idt_entry + sizeof_idt_entry
   <= length (idt stale_state))%nat /\
  exists st',
    example_register_isr example_int08 xff stale_state = Some st' /\
    well_formed st'.
Proof.
  split; [reflexivity|].
  apply register_isr_in_bounds. reflexivity.
Defined.

Lemma table_invariant_kept_witness :
  0 <= example_selector < 2 ^ 16 /\
  exists st' st'',
    example_init_idt stale_state = Some st' /\
    table_invariant example_selector st' /\
    exec_calls example_selector example_location
      example_int08 example_int32 example_int33
      [CallRegisterIsr example_int33 x80; CallInitIdt; CallRegisterExceptions]
      st' = Some st'' /\
    table_invariant example_selector st''.
Proof.
  assert (Hcs : 0 <= example_selector < 2 ^ 16)
    by (unfold example_selector; lia).
  split; [exact Hcs|].
  destruct (table_invariant_kept example_selector example_location
              example_int08 example_int32 example_int33 Hcs)
    as (Hinit & _ & Hcalls & _).
  destruct (Hinit stale_state eq_refl) as (st' & Hst' & Hinv).
  destruct (Hcalls
              [CallRegisterIsr example_int33 x80; CallInitIdt;
               CallRegisterExceptions] st' Hinv)
    as (st'' & Hst'' & Hinv').
  exists st', st''.
  split; [exact Hst'|]. split; [exact Hinv|].
  split; [exact Hst''|exact Hinv'].
Defined.

(** ** The further properties at concrete inputs *)

Lemma register_isr_slot_layout_witness :
  well_formed stale_state /\
  0 <= example_int08 < 2 ^ 32 /\
  0 <= example_selector < 2 ^ 16 /\
  exists st',
    example_register_isr example_int08 x08 stale_state = Some st' /\
    U8.to_Z <$> entry_bytes (idt st') (Byte.to_nat x08) =
      [0x20; 0x00; 0x08; 0x00; 0x00; 0x8E; 0x10; 0x00].
Proof.
  assert (Ha : 0 <= example_int08 < 2 ^ 32) by (unfold example_int08; lia).
  assert (Hc : 0 <= example_selector < 2 ^ 16)
    by (unfold example_selector; lia).
  split; [reflexivity|]. split; [exact Ha|]. split; [exact Hc|].
  exact (register_isr_slot_layout example_selector example_int08 x08
           stale_state eq_refl Ha Hc).
Defined.

Lemma register_isr_overwrites_witness :
  well_formed stale_state /\
  exists st1 st2 st2',
    example_register_isr example_int08 x08 stale_state = Some st1 /\
    example_register_isr example_int32 x08 st1 = Some st2 /\
    example_register_isr example_int32 x08 stale_state = Some st2' /\
    idt st2 = idt st2'.
Proof.
  split; [reflexivity|].
  apply register_isr_overwrites. reflexivity.
Defined.


Lemma init_idt_forgets_prior_state_witness :
  let zeroed := Machine (replicate sizeof_idt x00) (IdtPtr 0 0) None true [EvSti] in
  well_formed stale_state /\
  well_formed zeroed /\
  exists st1' st2',
    example_init_idt stale_state = Some st1' /\
    example_init_idt zeroed = Some st2' /\
    idt st1' = idt st2' /\
    idtp st1' = idtp st2' /\
    idtr st1' = idtr st2' /\
    interrupt_flag st1' = true /\
    interrupt_flag st2' = true /\
    events_since stale_state st1' = events_since zeroed st2'.
Proof.
  intros zeroed. split; [reflexivity|]. split; [reflexivity|].
  apply init_idt_forgets_prior_state; reflexivity.
Defined.

Lemma init_idt_present_exactly_witness :
  well_formed stale_state /\
  exists st',
    example_init_idt stale_state = Some st' /\
    forall index : byte,
      exists e,
        load_entry (idt st') (Byte.to_nat index) = Some e /\
        (present e = true <-> index = x08 \/ index = x20 \/ index = x21).
Proof.
  split; [reflexivity|].
  apply init_idt_present_exactly. reflexivity.
Defined.

Lemma calls_never_mask_interrupts_witness :
  well_formed stale_state /\
  (exists st',
     exec_calls example_selector example_location
       example_int08 example_int32 example_int33
       [CallRegisterIsr example_int33 x80; CallRegisterExceptions]
       stale_state = Some st' /\
     interrupt_flag st' = false /\ idtr st' = None) /\
  (exists st',
     exec_calls example_selector example_location
       example_int08 example_int32 example_int33
       [CallRegisterIsr example_int33 x80; CallInitIdt; CallRegisterExceptions]
       stale_state = Some st' /\
     interrupt_flag st' = true /\
     idtr st' = Some (IdtPtr 2047 example_location)).
Proof.
  split; [reflexivity|]. split.
  - destruct (calls_never_mask_interrupts example_selector example_location
                example_int08 example_int32 example_int33
                [CallRegisterIsr example_int33 x80; CallRegisterExceptions]
                stale_state eq_refl)
      as (st' & Hst' & _ & _ & Hno & _).
    destruct (Hno eq_refl) as (Hf & Hr & _).
    exists st'. split; [exact Hst'|]. split; [exact Hf | exact Hr].
  - destruct (calls_never_mask_interrupts example_selector example_location
                example_int08 example_int32 example_int33
                [CallRegisterIsr example_int33 x80; CallInitIdt;
                 CallRegisterExceptions]
                stale_state eq_refl)
      as (st' & Hst' & _ & _ & _ & Hyes).
    destruct (Hyes eq_refl) as (Hf & Hr & _).
    exists st'. split; [exact Hst'|]. split; [exact Hf | exact Hr].
Defined.

Lemma idtr_limit_covers_table_witness :
  well_formed stale_state /\
  exists st' r,
    example_init_idt stale_state = Some st' /\
    idtr st' = Some r /\
    idtp_size r + 1 = Z.of_nat (length (idt st')) /\
    forall index : byte,
      Z.of_nat (Byte.to_nat index * sizeof_idt_entry + sizeof_idt_entry) - 1
      <= idtp_size r.
Proof.
  split; [reflexivity|].
  apply idtr_limit_covers_table. reflexivity.
Defined.

Lemma registered_slot_stays_present_witness :
  let cs := [CallRegisterIsr 0 x05; CallRegisterExceptions;
             CallRegisterIsr example_int33 x06] in
  let e := IdtEntry 0xFFFF 0xFFFF 0xFF 0xFF 0xFFFF in
  well_formed stale_state /\
  existsb is_init_call cs = false /\
  load_entry (idt stale_state) (Byte.to_nat x05) = Some e /\
  present e = true /\
  exists st' e',
    exec_calls example_selector example_location
      example_int08 example_int32 example_int33 cs stale_state = Some st' /\
    load_entry (idt st') (Byte.to_nat x05) = Some e' /\
    present e' = true.
Proof.
  intros cs e. split; [reflexivity|]. split; [reflexivity|].
  split; [reflexivity|]. split; [reflexivity|].
  apply (registered_slot_stays_present example_selector example_location
           example_int08 example_int32 example_int33 cs x05 stale_state e);
    reflexivity.
Defined.
